(** * The recipe category layout of sveltesociety.dev

    A shallow embedding of [src/lib/layouts/RecipeCategory.svelte]: the
    instance script (the [childrenNodes] constant) and the two [{#each}]
    blocks of the template, over the two stores the component subscribes
    to ([$categories] and [$page]). *)

From Stdlib Require Import String Ascii List Bool.
From Stdlib Require Import Lia.
Import ListNotations.
Open Scope string_scope.

(** ** The fragment of JavaScript the component uses *)

Module Js.

(** The values of a property that make [v || d] evaluate to [d]. *)
Inductive Falsy : Type :=
| Undefined
| Null
| False_
| Zero
| NaN
| EmptyStr.

(** An array-valued property that may also hold a falsy value
    (a property that is not there reads as [Undefined]). *)
Inductive ArrayField (A : Type) : Type :=
| Absent (f : Falsy)
| Array (elems : list A).
Arguments Absent {A} f.
Arguments Array {A} elems.

(** [v || []] : an array is truthy, even when it is empty. *)
Definition or_empty {A : Type} (v : ArrayField A) : list A :=
  match v with
  | Absent _ => []
  | Array elems => elems
  end.

(** The exceptions an expression of the component can raise. *)
Inductive Error : Type :=
| TypeError (message : string).

(** Completion of an expression: a value, or an abrupt completion. *)
Inductive Completion (A : Type) : Type :=
| Normal (value : A)
| Throw (e : Error).
Arguments Normal {A} value.
Arguments Throw {A} e.

(** [undefined.key] *)
Definition read_of_undefined (key : string) : Error :=
  TypeError ("Cannot read properties of undefined (reading '" ++ key ++ "')").

(** [s.includes(searchString)]: some position of [s] starts an
    occurrence of [searchString]. *)
Fixpoint includes (s searchString : string) : bool :=
  if String.prefix searchString s then true
  else match s with
       | EmptyString => false
       | String _ rest => includes rest searchString
       end.

(** [a === b] on strings. *)
Definition strict_eq (a b : string) : bool := String.eqb a b.

End Js.

(** ** The category tree ([$lib/stores/recipes]) *)

(** Modelled from the spec: the module [$lib/stores/recipes] is not part of
    the sources; a node has the shape {path, title, icon, children} of the
    data model, and the layout reads exactly these four properties.  The
    [children] property is what the fallback of the script is written
    for, so it may hold a falsy value instead of an array. *)
#[warnings="-register-all"]
Inductive CategoryNode : Type :=
  mkNode {
    path : string;
    title : string;
    icon : option string;
    children : Js.ArrayField CategoryNode
  }.

(** ** The stores of the application *)

(** [$page.url]: only [pathname] is read by the layout. *)
Record URL : Type :=
  mkURL {
    pathname : string;
    search : string;
    hash : string
  }.

Record Page : Type :=
  mkPage {
    url : URL;
    params : list (string * string)
  }.

Record Stores : Type :=
  mkStores {
    categories : list CategoryNode;
    page : Page
  }.

(** ** Component code runs against the stores and may throw *)

Definition M (A : Type) : Type := Stores -> Stores * Js.Completion A.

Definition ret {A : Type} (a : A) : M A := fun st => (st, Js.Normal a).

Definition throw {A : Type} (e : Js.Error) : M A := fun st => (st, Js.Throw e).

Definition bind {A B : Type} (m : M A) (k : A -> M B) : M B :=
  fun st =>
    match m st with
    | (st', Js.Normal a) => k a st'
    | (st', Js.Throw e) => (st', Js.Throw e)
    end.

(** [$store]: the current value of a store the component subscribes to. *)
Definition subscribe {A : Type} (store : Stores -> A) : M A :=
  fun st => (st, Js.Normal (store st)).

Declare Scope js_scope.
Delimit Scope js_scope with js.
Notation "x <- m ;; k" := (bind m (fun x => k))
  (at level 61, m at next level, right associativity) : js_scope.
Open Scope js_scope.

(** ** The rendered markup *)

(** [<div class="TOCLink" class:active=...><Icon name=.../><a href=...>...</a></div>] *)
Record TOCLink : Type :=
  mkTOCLink {
    active : bool;
    icon_name : option string;
    href : string;
    text : string
  }.

(** [<li><a href=...>...</a></li>] *)
Record Li : Type :=
  mkLi {
    li_href : string;
    li_text : string
  }.

Record Markup : Type :=
  mkMarkup {
    seo_title : string;
    toc_list : list TOCLink;
    h1 : string;
    ul : list Li
  }.

(** ** RecipeCategory.svelte *)

Module RecipeCategory.

(** [$categories.find((c) => c.path === $page.url.pathname)] *)
Definition find_category (cs : list CategoryNode) (p : Page) : option CategoryNode :=
  find (fun c => Js.strict_eq (path c) (pathname (url p))) cs.

(** [const childrenNodes =
       $categories.find((c) => c.path === $page.url.pathname).children || [];]
    [find] answers [undefined] when no element passes the test, and
    reading [.children] of [undefined] throws. *)
Definition childrenNodes : M (list CategoryNode) :=
  cs <- subscribe categories ;;
  p <- subscribe page ;;
  match find_category cs p with
  | None => throw (Js.read_of_undefined "children")
  | Some c => ret (Js.or_empty (children c))
  end.

(** The body of [{#each $categories as node}]. *)
Definition toc_link (p : Page) (node : CategoryNode) : TOCLink :=
  {| active := Js.includes (pathname (url p)) (path node);
     icon_name := icon node;
     href := path node;
     text := title node |}.

(** [{#each $categories as node} ... {/each}] *)
Definition TOCList : M (list TOCLink) :=
  cs <- subscribe categories ;;
  p <- subscribe page ;;
  ret (map (toc_link p) cs).

(** The body of [{#each childrenNodes as node}]. *)
Definition li (node : CategoryNode) : Li :=
  {| li_href := path node; li_text := title node |}.

(** The component: the instance script runs first, then the template is
    rendered; [title] is the component's prop. *)
Definition render (title_prop : string) : M Markup :=
  nodes <- childrenNodes ;;
  links <- TOCList ;;
  ret {| seo_title := title_prop;
         toc_list := links;
         h1 := title_prop;
         ul := map li nodes |}.

(** What an evaluation leaves in the stores, and what it produces. *)
Definition stores_after {A : Type} (m : M A) (st : Stores) : Stores := fst (m st).
Definition outcome {A : Type} (m : M A) (st : Stores) : Js.Completion A := snd (m st).

End RecipeCategory.

(** ** The words of the specification *)

(** [sub] occurs in [s] as a substring. *)
Definition is_substring (sub s : string) : Prop :=
  exists before after, s = before ++ sub ++ after.

(** The render output of the specification: the top-level list and the
    child list of a render, or the exception in their place. *)
Definition lists_of (o : Js.Completion Markup) : Js.Completion (list TOCLink * list Li) :=
  match o with
  | Js.Normal out => Js.Normal (toc_list out, ul out)
  | Js.Throw e => Js.Throw e
  end.

(** [c] is the first node of [cs] whose path is exactly [p]. *)
Definition first_with_path (cs : list CategoryNode) (p : string) (c : CategoryNode) : Prop :=
  exists before after,
    cs = (before ++ c :: after)%list /\
    path c = p /\
    forall n, In n before -> path n <> p.

(** The tree and the stores of the specification's scenarios. *)
Definition node_X : CategoryNode :=
  {| path := "/a/x"; title := "X"; icon := None; children := Js.Absent Js.Undefined |}.
Definition node_A : CategoryNode :=
  {| path := "/a"; title := "A"; icon := None; children := Js.Array [node_X] |}.
Definition node_B : CategoryNode :=
  {| path := "/b"; title := "B"; icon := None; children := Js.Array [] |}.
Definition scenario_tree : list CategoryNode := [node_A; node_B].

(** A top-level node whose path is the empty string. *)
Definition node_Home : CategoryNode :=
  {| path := ""; title := "Home"; icon := None; children := Js.Array [] |}.

Definition at_path (cs : list CategoryNode) (p : string) : Stores :=
  {| categories := cs;
     page := {| url := {| pathname := p; search := ""; hash := "" |}; params := [] |} |}.

(** What the layout reads of a top-level node: the three properties of its
    link, and of each element of [children || []] the two properties of
    its list item. *)
Definition observed (node : CategoryNode) : string * string * option string * list Li :=
  (path node, title node, icon node,
   map RecipeCategory.li (Js.or_empty (children node))).

(** ** Strings *)

Section Strings.

Lemma prefix_true_iff (p s : string) :
  String.prefix p s = true <-> exists after, s = p ++ after.
Proof.
  revert s; induction p as [|a p IH]; intros s.
  - split; [intros _; now exists s | now destruct s].
  - destruct s as [|b s]; simpl.
    + split; [discriminate | intros [after H]; discriminate].
    + destruct (Ascii.ascii_dec a b) as [->|Hab].
      * rewrite IH; split; intros [after H]; exists after.
        -- now rewrite H.
        -- simpl in H; now injection H.
      * split; [discriminate|].
        intros [after H]; simpl in H; injection H as H1 _; congruence.
Qed.

Lemma includes_unfold (s sub : string) :
  Js.includes s sub =
  String.prefix sub s
  || match s with
     | EmptyString => false
     | String _ rest => Js.includes rest sub
     end.
Proof.
  destruct s as [|a rest]; simpl.
  - now destruct (String.prefix sub "").
  - now destruct (String.prefix sub (String a rest)).
Qed.

Lemma includes_true_iff (s sub : string) :
  Js.includes s sub = true <-> is_substring sub s.
Proof.
  unfold is_substring; induction s as [|a s IH];
    rewrite includes_unfold, orb_true_iff, prefix_true_iff.
  - split.
    + intros [[after H]|H]; [|discriminate]. now exists "", after.
    + intros [[|b before] [after H]]; [left; now exists after | discriminate].
  - rewrite IH; split.
    + intros [[after H]|[before [after H]]].
      * now exists "", after.
      * exists (String a before), after; simpl; now rewrite H.
    + intros [[|b before] [after H]].
      * left; now exists after.
      * right; simpl in H; injection H as _ H; now exists before, after.
Qed.

Lemma includes_empty (s : string) : Js.includes s "" = true.
Proof. apply includes_true_iff; now exists "", s. Qed.

End Strings.

(** ** Evaluating the component *)

Section Evaluation.

Import RecipeCategory.

Variable st : Stores.

Local Abbreviation here := (pathname (url (page st))).

Lemma childrenNodes_run :
  childrenNodes st =
  (st, match find_category (categories st) (page st) with
       | None => Js.Throw (Js.read_of_undefined "children")
       | Some c => Js.Normal (Js.or_empty (children c))
       end).
Proof.
  unfold childrenNodes, bind, subscribe, throw, ret.
  now destruct (find_category (categories st) (page st)).
Qed.

Lemma TOCList_run :
  TOCList st = (st, Js.Normal (map (toc_link (page st)) (categories st))).
Proof. reflexivity. Qed.

Lemma render_run (title_prop : string) :
  render title_prop st =
  (st, match find_category (categories st) (page st) with
       | None => Js.Throw (Js.read_of_undefined "children")
       | Some c =>
           Js.Normal {| seo_title := title_prop;
                        toc_list := map (toc_link (page st)) (categories st);
                        h1 := title_prop;
                        ul := map li (Js.or_empty (children c)) |}
       end).
Proof.
  unfold render, bind; rewrite childrenNodes_run.
  now destruct (find_category (categories st) (page st)).
Qed.

(** [find] answers the first element that passes the test. *)
Lemma find_category_Some (c : CategoryNode) :
  find_category (categories st) (page st) = Some c <->
  first_with_path (categories st) here c.
Proof.
  unfold find_category, first_with_path, Js.strict_eq.
  generalize (categories st) as cs.
  induction cs as [|n cs IH]; simpl.
  - split; [discriminate|].
    intros (before & after & H & _); now destruct before.
  - destruct (String.eqb_spec (path n) here) as [Heq|Hne].
    + split.
      * intros [= ->]. exists [], cs. now repeat split.
      * intros ([|m before] & after & H & Hp & Hfirst); simpl in H.
        -- now injection H as ->.
        -- injection H as -> _. exfalso; apply (Hfirst m); [now left | exact Heq].
    + rewrite IH; split.
      * intros (before & after & -> & Hp & Hfirst).
        exists (n :: before), after; repeat split; trivial.
        intros m [<-|Hin]; [exact Hne | now apply Hfirst].
      * intros ([|m before] & after & H & Hp & Hfirst); simpl in H.
        -- injection H as -> _. contradiction.
        -- injection H as _ ->. exists before, after; repeat split; trivial.
           intros k Hin; apply Hfirst; now right.
Qed.

(** [find] answers [undefined] exactly when no element passes the test. *)
Lemma find_category_None :
  find_category (categories st) (page st) = None <->
  forall n, In n (categories st) -> path n <> here.
Proof.
  unfold find_category, Js.strict_eq.
  generalize (categories st) as cs.
  induction cs as [|n cs IH]; simpl.
  - split; [intros _ n [] | reflexivity].
  - destruct (String.eqb_spec (path n) here) as [Heq|Hne].
    + split; [discriminate|]. intros H; exfalso; apply (H n); [now left | exact Heq].
    + rewrite IH; split.
      * intros H m [<-|Hin]; [exact Hne | now apply H].
      * intros H m Hin; apply H; now right.
Qed.

(** Some node carries the path: then one of them is the first. *)
Lemma first_with_path_exists :
  (exists n, In n (categories st) /\ path n = here) ->
  exists c, first_with_path (categories st) here c.
Proof.
  intros (n & Hin & Hp).
  destruct (find_category (categories st) (page st)) as [c|] eqn:Hfind.
  - exists c; now apply find_category_Some.
  - exfalso; exact (proj1 find_category_None Hfind n Hin Hp).
Qed.

(** The script throws on every path that no top-level node carries. *)
Lemma no_exact_match_throws (title_prop : string) :
  (forall n, In n (categories st) -> path n <> here) ->
  outcome childrenNodes st = Js.Throw (Js.read_of_undefined "children") /\
  outcome (render title_prop) st = Js.Throw (Js.read_of_undefined "children").
Proof.
  intros H; apply find_category_None in H.
  unfold outcome; rewrite childrenNodes_run, render_run, H; now split.
Qed.

End Evaluation.

(** ** The properties of the navigation view *)

Section Properties.

Import RecipeCategory.

(** C1: on a path that no top-level node carries exactly, the view should
    give an empty child list; at the scenario tree and the path
    [/unknown] the script throws a [TypeError] instead, and nothing is
    rendered. *)
Theorem unknown_path_throws (title_prop : string) :
  outcome childrenNodes (at_path scenario_tree "/unknown") =
    Js.Throw (Js.TypeError "Cannot read properties of undefined (reading 'children')") /\
  outcome (render title_prop) (at_path scenario_tree "/unknown") =
    Js.Throw (Js.TypeError "Cannot read properties of undefined (reading 'children')").
Proof. split; reflexivity. Qed.

(** C2: every top-level node whose path occurs in the current path should
    be marked active in the rendered top-level list; at the scenario tree
    and the path [/a/x] the path of node A occurs in the current path and
    the each-block alone would mark its link active, but the script throws
    first, so no top-level list is rendered and no node is marked. *)
Theorem substring_match_not_rendered (title_prop : string) :
  nth_error scenario_tree 0 = Some node_A /\
  is_substring (path node_A) "/a/x" /\
  (exists links link,
      outcome TOCList (at_path scenario_tree "/a/x") = Js.Normal links /\
      nth_error links 0 = Some link /\
      href link = path node_A /\
      active link = true) /\
  outcome (render title_prop) (at_path scenario_tree "/a/x") =
    Js.Throw (Js.TypeError "Cannot read properties of undefined (reading 'children')").
Proof.
  split; [reflexivity|].
  split; [exists "", "/x"; reflexivity|].
  split; [|reflexivity].
  eexists; eexists; repeat split.
Qed.

(** C3: when some top-level node carries the current path exactly, the
    script succeeds and [childrenNodes] is the [children] array of the
    first such node, which the view lists item by item. *)
Theorem exact_match_children (st : Stores) (title_prop : string)
  (Hsome : exists n, In n (categories st) /\ path n = pathname (url (page st))) :
  exists c,
    first_with_path (categories st) (pathname (url (page st))) c /\
    outcome childrenNodes st = Js.Normal (Js.or_empty (children c)) /\
    forall elems, children c = Js.Array elems ->
      outcome childrenNodes st = Js.Normal elems /\
      exists out,
        outcome (render title_prop) st = Js.Normal out /\ ul out = map li elems.
Proof.
  destruct (first_with_path_exists st Hsome) as [c Hc].
  exists c; split; [exact Hc|].
  apply find_category_Some in Hc.
  unfold outcome; rewrite childrenNodes_run, render_run, Hc; simpl.
  split; [reflexivity|].
  intros elems ->; split; [reflexivity|].
  eexists; split; reflexivity.
Qed.

Lemma exact_match_children_witness :
  exists c,
    first_with_path scenario_tree "/a" c /\
    outcome childrenNodes (at_path scenario_tree "/a") =
      Js.Normal (Js.or_empty (children c)) /\
    forall elems, children c = Js.Array elems ->
      outcome childrenNodes (at_path scenario_tree "/a") = Js.Normal elems /\
      exists out,
        outcome (render "Recipes") (at_path scenario_tree "/a") = Js.Normal out /\
        ul out = map li elems.
Proof.
  apply (exact_match_children (at_path scenario_tree "/a") "Recipes").
  exists node_A; split; [now left | reflexivity].
Defined.



(** C5: at the scenario tree and the path [/a] the view renders the
    top-level list [A (active), B (not active)] and the child list [X]. *)
Theorem scenario_a (title_prop : string) :
  outcome (render title_prop) (at_path scenario_tree "/a") =
  Js.Normal
    {| seo_title := title_prop;
       toc_list :=
         [ {| active := true; icon_name := None; href := "/a"; text := "A" |};
           {| active := false; icon_name := None; href := "/b"; text := "B" |} ];
       h1 := title_prop;
       ul := [ {| li_href := "/a/x"; li_text := "X" |} ] |}.
Proof. reflexivity. Qed.

(** C6: at the scenario tree and the path [/a/x] the each-block of the
    top-level list gives [A (active), B (not active)], but the script
    throws a [TypeError] before anything is rendered, where an empty
    child list is expected. *)
Theorem scenario_a_x_throws (title_prop : string) :
  outcome TOCList (at_path scenario_tree "/a/x") =
    Js.Normal
      [ {| active := true; icon_name := None; href := "/a"; text := "A" |};
        {| active := false; icon_name := None; href := "/b"; text := "B" |} ] /\
  outcome childrenNodes (at_path scenario_tree "/a/x") =
    Js.Throw (Js.TypeError "Cannot read properties of undefined (reading 'children')") /\
  outcome (render title_prop) (at_path scenario_tree "/a/x") =
    Js.Throw (Js.TypeError "Cannot read properties of undefined (reading 'children')").
Proof. repeat split. Qed.

(** C7: whatever it produces, an evaluation of the view (the script, the
    each-block of the top-level list, the whole component) leaves the
    stores as they were: the category tree after it is the tree before
    it, node for node. *)
Theorem stores_unchanged (st : Stores) (title_prop : string) :
  stores_after childrenNodes st = st /\
  stores_after TOCList st = st /\
  stores_after (render title_prop) st = st /\
  categories (stores_after (render title_prop) st) = categories st.
Proof.
  unfold stores_after.
  rewrite childrenNodes_run, TOCList_run, render_run; now repeat split.
Qed.

(** C8: the outcome of the view is a function of the category tree, the
    current path and the [title] prop alone: two evaluations that agree
    on them produce the same outcome, whatever else the stores hold; and
    the two lists of the render (or the exception thrown) are the same
    under any two titles. *)
Theorem render_deterministic (st1 st2 : Stores)
  (Htree : categories st1 = categories st2)
  (Hpath : pathname (url (page st1)) = pathname (url (page st2))) :
  (forall title_prop,
      outcome (render title_prop) st1 = outcome (render title_prop) st2) /\
  (forall title1 title2,
      lists_of (outcome (render title1) st1) = lists_of (outcome (render title2) st2)).
Proof.
  assert (Hlinks : map (toc_link (page st1)) (categories st1) =
                   map (toc_link (page st2)) (categories st2)).
  { rewrite Htree; apply map_ext; intros node; unfold toc_link; now rewrite Hpath. }
  assert (Hfind : find_category (categories st1) (page st1) =
                  find_category (categories st2) (page st2)).
  { unfold find_category; now rewrite Htree, Hpath. }
  unfold outcome; split; intros; rewrite !render_run; simpl;
    rewrite Hfind, Hlinks;
    now destruct (find_category (categories st2) (page st2)).
Qed.

Lemma render_deterministic_witness :
  (forall title_prop,
      outcome (render title_prop) (at_path scenario_tree "/a") =
      outcome (render title_prop)
        {| categories := scenario_tree;
           page := {| url := {| pathname := "/a"; search := "?q=1"; hash := "#top" |};
                      params := [("slug", "a")] |} |}) /\
  (forall title1 title2,
      lists_of (outcome (render title1) (at_path scenario_tree "/a")) =
      lists_of (outcome (render title2)
        {| categories := scenario_tree;
           page := {| url := {| pathname := "/a"; search := "?q=1"; hash := "#top" |};
                      params := [("slug", "a")] |} |})).
Proof.
  apply (render_deterministic (at_path scenario_tree "/a")); reflexivity.
Defined.

(** C9: when the first node that carries the current path has a falsy
    [children] property, the fallback makes [childrenNodes] the empty
    array: the script does not throw and the view lists no child. *)
Theorem falsy_children_empty (st : Stores) (c : CategoryNode) (f : Js.Falsy)
  (title_prop : string)
  (Hfirst : first_with_path (categories st) (pathname (url (page st))) c)
  (Hfalsy : children c = Js.Absent f) :
  outcome childrenNodes st = Js.Normal [] /\
  exists out, outcome (render title_prop) st = Js.Normal out /\ ul out = [].
Proof.
  apply find_category_Some in Hfirst.
  unfold outcome; rewrite childrenNodes_run, render_run, Hfirst, Hfalsy; simpl.
  split; [reflexivity|]. eexists; split; reflexivity.
Qed.

Lemma falsy_children_empty_witness :
  outcome childrenNodes (at_path [node_B; node_X] "/a/x") = Js.Normal [] /\
  exists out,
    outcome (render "X") (at_path [node_B; node_X] "/a/x") = Js.Normal out /\
    ul out = [].
Proof.
  apply (falsy_children_empty (at_path [node_B; node_X] "/a/x") node_X Js.Undefined).
  - exists [node_B], []; repeat split.
    intros n [<-|[]]; discriminate.
  - reflexivity.
Defined.

(** C10: a top-level node whose path is the empty string should be marked
    active on every current path; at the tree [A, Home] (Home with the
    empty path) and the path [/b] the each-block alone would mark Home
    active, but no node carries [/b], the script throws first and no
    top-level list is rendered. *)
Theorem empty_path_not_rendered (title_prop : string) :
  nth_error [node_A; node_Home] 1 = Some node_Home /\
  path node_Home = "" /\
  (exists links link,
      outcome TOCList (at_path [node_A; node_Home] "/b") = Js.Normal links /\
      nth_error links 1 = Some link /\
      href link = "" /\
      active link = true) /\
  outcome (render title_prop) (at_path [node_A; node_Home] "/b") =
    Js.Throw (Js.TypeError "Cannot read properties of undefined (reading 'children')").
Proof.
  repeat split.
  eexists; eexists; repeat split.
Qed.

End Properties.

(** ** Substrings *)

Section Substrings.

Lemma append_assoc_s (a b c : string) : (a ++ b) ++ c = a ++ b ++ c.
Proof. induction a as [|x a IH]; simpl; [reflexivity | now rewrite IH]. Qed.

Lemma append_empty_r (a : string) : a ++ "" = a.
Proof. induction a as [|x a IH]; simpl; [reflexivity | now rewrite IH]. Qed.

Lemma length_append_s (a b : string) :
  String.length (a ++ b) = String.length a + String.length b.
Proof. induction a as [|x a IH]; simpl; [reflexivity | now rewrite IH]. Qed.

Lemma is_substring_refl (a : string) : is_substring a a.
Proof. exists "", ""; simpl; now rewrite append_empty_r. Qed.

Lemma is_substring_trans (a b c : string) :
  is_substring a b -> is_substring b c -> is_substring a c.
Proof.
  intros (a1 & a2 & ->) (b1 & b2 & ->).
  exists (b1 ++ a1), (a2 ++ b2).
  now rewrite !append_assoc_s.
Qed.

Lemma is_substring_length (a b : string) :
  is_substring a b -> String.length a <= String.length b.
Proof. intros (a1 & a2 & ->); rewrite !length_append_s; lia. Qed.

End Substrings.

(** ** Lists of nodes *)

Section Nodes.

Variables (A B C : Type).

(** A map that reads its elements through [g] cannot tell apart two lists
    that [g] maps to the same list. *)
Lemma map_through (g : A -> B) (h : B -> C) (f : A -> C) (l1 l2 : list A) :
  (forall x, f x = h (g x)) -> map g l1 = map g l2 -> map f l1 = map f l2.
Proof.
  intros Hf Hg.
  rewrite (map_ext f (fun x => h (g x)) Hf l1), (map_ext f (fun x => h (g x)) Hf l2).
  now rewrite <- (map_map g h l1), <- (map_map g h l2), Hg.
Qed.

Lemma find_append (f : A -> bool) (l1 l2 : list A) :
  find f (l1 ++ l2) = match find f l1 with
                      | Some x => Some x
                      | None => find f l2
                      end.
Proof.
  induction l1 as [|x l1 IH]; simpl; [reflexivity|].
  now destruct (f x).
Qed.

Lemma find_none_of (f : A -> bool) (l : list A) :
  (forall x, In x l -> f x = false) -> find f l = None.
Proof.
  induction l as [|x l IH]; simpl; intros H; [reflexivity|].
  rewrite (H x) by now left. apply IH; intros y Hy; apply H; now right.
Qed.

End Nodes.

(** ** Further properties of the layout *)

Section Further.

Import RecipeCategory.

(** X1: the component renders exactly when some top-level node carries the
    current path, and otherwise its script throws the [TypeError] of
    reading [children] of [undefined]. *)
Theorem render_iff_exact_match (st : Stores) (title_prop : string) :
  ((exists n, In n (categories st) /\ path n = pathname (url (page st))) <->
   (exists out, outcome (render title_prop) st = Js.Normal out)) /\
  ((forall n, In n (categories st) -> path n <> pathname (url (page st))) <->
   outcome (render title_prop) st = Js.Throw (Js.read_of_undefined "children")).
Proof.
  unfold outcome; rewrite render_run; simpl.
  destruct (find_category (categories st) (page st)) as [c|] eqn:Hfind.
  - apply find_some in Hfind as [Hin Heq].
    apply String.eqb_eq in Heq.
    split; split.
    + intros _; eexists; reflexivity.
    + intros _; now exists c.
    + intros H; now elim (H c Hin).
    + discriminate.
  - pose proof (proj1 (find_category_None st) Hfind) as Hnone.
    split; split.
    + intros (n & Hin & Hp); now elim (Hnone n Hin).
    + intros [out H]; discriminate.
    + reflexivity.
    + intros _; exact Hnone.
Qed.

(** X2: in every render, the top-level list holds a link to the current
    path that is marked active: the node whose children are listed is
    itself highlighted. *)
Theorem active_node_is_highlighted (st : Stores) (title_prop : string) (out : Markup)
  (Hrender : outcome (render title_prop) st = Js.Normal out) :
  exists i link,
    nth_error (toc_list out) i = Some link /\
    href link = pathname (url (page st)) /\
    active link = true.
Proof.
  unfold outcome in Hrender; rewrite render_run in Hrender; simpl in Hrender.
  destruct (find_category (categories st) (page st)) as [c|] eqn:Hfind;
    [|discriminate].
  injection Hrender as <-; simpl.
  apply find_some in Hfind as [Hin Heq]; apply String.eqb_eq in Heq.
  destruct (In_nth_error _ _ Hin) as [i Hi].
  exists i, (toc_link (page st) c); repeat split.
  - now apply map_nth_error.
  - exact Heq.
  - simpl; rewrite Heq; apply includes_true_iff, is_substring_refl.
Qed.

Lemma active_node_is_highlighted_witness :
  exists i link,
    nth_error
      [ {| active := false; icon_name := None; href := "/b"; text := "B" |};
        {| active := true; icon_name := None; href := "/a/x"; text := "X" |} ] i
    = Some link /\
    href link = "/a/x" /\
    active link = true.
Proof.
  apply (active_node_is_highlighted (at_path [node_B; node_X] "/a/x") "X"
           {| seo_title := "X";
              toc_list :=
                [ {| active := false; icon_name := None; href := "/b"; text := "B" |};
                  {| active := true; icon_name := None; href := "/a/x"; text := "X" |} ];
              h1 := "X";
              ul := [] |}).
  reflexivity.
Defined.

(** X3: when the component renders on a path and on a second path that
    contains the first and that some top-level node carries, every link
    that is marked active in the first render is marked active, at the
    same place, in the second: the highlight of a section survives on the
    pages below it that render. *)
Theorem highlight_survives_descent
  (st st' : Stores) (title_prop title_prop' : string) (out : Markup)
  (i : nat) (link : TOCLink)
  (Htree : categories st = categories st')
  (Hbelow : is_substring (pathname (url (page st))) (pathname (url (page st'))))
  (Hrender : outcome (render title_prop) st = Js.Normal out)
  (Hsome : exists n, In n (categories st') /\ path n = pathname (url (page st')))
  (Hlink : nth_error (toc_list out) i = Some link)
  (Hactive : active link = true) :
  exists out' link',
    outcome (render title_prop') st' = Js.Normal out' /\
    nth_error (toc_list out') i = Some link' /\
    href link' = href link /\
    text link' = text link /\
    active link' = true.
Proof.
  unfold outcome in *; rewrite render_run in *; simpl in *.
  destruct (first_with_path_exists st' Hsome) as [c' Hc'].
  apply find_category_Some in Hc'; rewrite Hc'.
  destruct (find_category (categories st) (page st)) as [c|]; [|discriminate].
  injection Hrender as <-; simpl in Hlink.
  rewrite Htree in Hlink.
  rewrite nth_error_map in Hlink.
  destruct (nth_error (categories st') i) as [n|] eqn:Hnode; [|discriminate].
  injection Hlink as <-; simpl in Hactive.
  eexists; exists (toc_link (page st') n); split; [reflexivity|]; simpl.
  split; [now apply map_nth_error|].
  repeat split.
  apply includes_true_iff; apply includes_true_iff in Hactive.
  exact (is_substring_trans _ _ _ Hactive Hbelow).
Qed.

Lemma highlight_survives_descent_witness :
  exists out' link',
    outcome (render "X") (at_path [node_A; node_X] "/a/x") = Js.Normal out' /\
    nth_error (toc_list out') 0 = Some link' /\
    href link' = "/a" /\
    text link' = "A" /\
    active link' = true.
Proof.
  apply (highlight_survives_descent
           (at_path [node_A; node_X] "/a") (at_path [node_A; node_X] "/a/x")
           "A" "X"
           {| seo_title := "A";
              toc_list :=
                [ {| active := true; icon_name := None; href := "/a"; text := "A" |};
                  {| active := false; icon_name := None; href := "/a/x"; text := "X" |} ];
              h1 := "A";
              ul := [ {| li_href := "/a/x"; li_text := "X" |} ] |}
           0 {| active := true; icon_name := None; href := "/a"; text := "A" |}).
  - reflexivity.
  - exists "", "/x"; reflexivity.
  - reflexivity.
  - exists node_X; split; [right; now left | reflexivity].
  - reflexivity.
  - reflexivity.
Defined.

(** X4: when a node is marked active, every node whose path occurs inside
    that node's path is marked active as well: the highlight is not
    exclusive. *)
Theorem inner_paths_highlighted_together (pg : Page) (n1 n2 : CategoryNode)
  (Hinner : is_substring (path n1) (path n2))
  (Hactive : active (toc_link pg n2) = true) :
  active (toc_link pg n1) = true.
Proof.
  simpl in *; apply includes_true_iff.
  apply includes_true_iff in Hactive.
  exact (is_substring_trans _ _ _ Hinner Hactive).
Qed.

Lemma inner_paths_highlighted_together_witness :
  active (toc_link (page (at_path [node_A; node_X] "/a/x")) node_A) = true.
Proof.
  apply (inner_paths_highlighted_together _ node_A node_X).
  - exists "", "/x"; reflexivity.
  - reflexivity.
Defined.

(** X5: a node whose path is longer than the current path is never marked
    active. *)
Theorem longer_path_never_active (pg : Page) (n : CategoryNode)
  (Hlonger : String.length (pathname (url pg)) < String.length (path n)) :
  active (toc_link pg n) = false.
Proof.
  simpl; destruct (Js.includes (pathname (url pg)) (path n)) eqn:Hinc; [|reflexivity].
  apply includes_true_iff, is_substring_length in Hinc; lia.
Qed.

Lemma longer_path_never_active_witness :
  active (toc_link (page (at_path scenario_tree "/a")) node_X) = false.
Proof.
  apply longer_path_never_active; simpl; lia.
Defined.

Lemma find_category_observed (cs1 cs2 : list CategoryNode) (pg1 pg2 : Page) :
  map observed cs1 = map observed cs2 ->
  pathname (url pg1) = pathname (url pg2) ->
  option_map observed (find_category cs1 pg1) =
  option_map observed (find_category cs2 pg2).
Proof.
  intros Hobs Hpath; unfold find_category; rewrite Hpath.
  revert cs2 Hobs; induction cs1 as [|c1 cs1 IH]; intros [|c2 cs2] Hobs;
    try discriminate; [reflexivity|].
  simpl in Hobs; injection Hobs as Hp Ht Hi Hitems Htail; simpl.
  rewrite Hp; destruct (Js.strict_eq (path c2) (pathname (url pg2))).
  - simpl; unfold observed; congruence.
  - now apply IH.
Qed.

(** X6: the outcome of the view depends on the category tree only through
    the path, title and icon of each top-level node and the path and title
    of each element of its [children || []]: two trees that agree on these
    render alike on the same path, whatever the icons and children of the
    child nodes are and whether [children] is missing or empty. *)
Theorem render_observes_only (st1 st2 : Stores) (title_prop : string)
  (Hobs : map observed (categories st1) = map observed (categories st2))
  (Hpath : pathname (url (page st1)) = pathname (url (page st2))) :
  outcome (render title_prop) st1 = outcome (render title_prop) st2.
Proof.
  unfold outcome; rewrite !render_run; simpl.
  pose proof (find_category_observed _ _ _ _ Hobs Hpath) as Hfind.
  assert (Hlinks : map (toc_link (page st1)) (categories st1) =
                   map (toc_link (page st2)) (categories st2)).
  { transitivity (map (toc_link (page st2)) (categories st1)).
    - apply map_ext; intros node; unfold toc_link; now rewrite Hpath.
    - apply (map_through _ _ _ observed
               (fun o => {| active := Js.includes (pathname (url (page st2)))
                                                  (fst (fst (fst o)));
                            icon_name := snd (fst o);
                            href := fst (fst (fst o));
                            text := snd (fst (fst o)) |}));
        [reflexivity | exact Hobs]. }
  rewrite Hlinks.
  destruct (find_category (categories st1) (page st1)) as [c1|],
           (find_category (categories st2) (page st2)) as [c2|];
    simpl in Hfind; try discriminate; [|reflexivity].
  injection Hfind as _ _ _ Hul; now rewrite Hul.
Qed.

Lemma render_observes_only_witness :
  outcome (render "Recipes") (at_path scenario_tree "/a") =
  outcome (render "Recipes")
    (at_path
       [ {| path := "/a"; title := "A"; icon := None;
            children :=
              Js.Array [ {| path := "/a/x"; title := "X"; icon := Some "star";
                            children := Js.Array [node_B] |} ] |};
         {| path := "/b"; title := "B"; icon := None;
            children := Js.Absent Js.Null |} ]
       "/a").
Proof.
  apply render_observes_only; reflexivity.
Defined.

(** X7: a page that renders keeps its child list when nodes are added to
    the store, after the existing ones or before them as long as the ones
    before do not carry the current path; the top-level list gains their
    links at the same places. *)
Theorem surrounding_nodes_keep_children
  (before cs extra : list CategoryNode) (pg : Page) (title_prop : string) (out : Markup)
  (Hbefore : forall n, In n before -> path n <> pathname (url pg))
  (Hrender : outcome (render title_prop) {| categories := cs; page := pg |}
             = Js.Normal out) :
  outcome (render title_prop) {| categories := before ++ cs ++ extra; page := pg |} =
  Js.Normal {| seo_title := title_prop;
               toc_list := map (toc_link pg) before ++ toc_list out
                           ++ map (toc_link pg) extra;
               h1 := title_prop;
               ul := ul out |}.
Proof.
  unfold outcome in *; rewrite render_run in *; simpl in *.
  unfold find_category in *; simpl in *.
  rewrite !find_append, (find_none_of _ _ before).
  - destruct (find _ cs) as [c|]; [|discriminate].
    injection Hrender as <-; simpl. now rewrite !map_app.
  - intros n Hin; apply String.eqb_neq; now apply Hbefore.
Qed.

Lemma surrounding_nodes_keep_children_witness :
  outcome (render "A") (at_path ([node_B] ++ [node_A] ++ [node_X; node_A]) "/a") =
  Js.Normal
    {| seo_title := "A";
       toc_list :=
         [ {| active := false; icon_name := None; href := "/b"; text := "B" |};
           {| active := true; icon_name := None; href := "/a"; text := "A" |};
           {| active := false; icon_name := None; href := "/a/x"; text := "X" |};
           {| active := true; icon_name := None; href := "/a"; text := "A" |} ];
       h1 := "A";
       ul := [ {| li_href := "/a/x"; li_text := "X" |} ] |}.
Proof.
  apply (surrounding_nodes_keep_children [node_B] [node_A] [node_X; node_A]
           (page (at_path [] "/a")) "A"
           {| seo_title := "A";
              toc_list :=
                [ {| active := true; icon_name := None; href := "/a"; text := "A" |} ];
              h1 := "A";
              ul := [ {| li_href := "/a/x"; li_text := "X" |} ] |}).
  - intros n [<-|[]]; discriminate.
  - reflexivity.
Defined.

(** X8: every item of a rendered child list is the item of an element of
    the [children] array of a top-level node that carries the current
    path: children of other nodes are never listed. *)
Theorem listed_children_belong (st : Stores) (title_prop : string) (out : Markup)
  (item : Li)
  (Hrender : outcome (render title_prop) st = Js.Normal out)
  (Hitem : In item (ul out)) :
  exists c elems child,
    In c (categories st) /\
    path c = pathname (url (page st)) /\
    children c = Js.Array elems /\
    In child elems /\
    item = li child.
Proof.
  unfold outcome in Hrender; rewrite render_run in Hrender; simpl in Hrender.
  destruct (find_category (categories st) (page st)) as [c|] eqn:Hfind;
    [|discriminate].
  injection Hrender as <-; simpl in Hitem.
  apply find_some in Hfind as [Hin Heq]; apply String.eqb_eq in Heq.
  destruct (children c) as [f|elems] eqn:Hch; simpl in Hitem; [contradiction|].
  apply in_map_iff in Hitem as (child & <- & Hchild).
  now exists c, elems, child.
Qed.

Lemma listed_children_belong_witness :
  exists c elems child,
    In c scenario_tree /\
    path c = "/a" /\
    children c = Js.Array elems /\
    In child elems /\
    {| li_href := "/a/x"; li_text := "X" |} = li child.
Proof.
  apply (listed_children_belong (at_path scenario_tree "/a") "A"
           {| seo_title := "A";
              toc_list :=
                [ {| active := true; icon_name := None; href := "/a"; text := "A" |};
                  {| active := false; icon_name := None; href := "/b"; text := "B" |} ];
              h1 := "A";
              ul := [ {| li_href := "/a/x"; li_text := "X" |} ] |}).
  - reflexivity.
  - now left.
Defined.

(** X9: when some top-level node carries the current path, the component
    renders, and in the rendered top-level list the link of the node at
    every position is marked active if and only if the node's path occurs
    in the current path as a substring. *)
Theorem rendered_active_iff_substring (st : Stores) (title_prop : string)
  (Hsome : exists n, In n (categories st) /\ path n = pathname (url (page st))) :
  exists out,
    outcome (render title_prop) st = Js.Normal out /\
    forall i n, nth_error (categories st) i = Some n ->
      exists link,
        nth_error (toc_list out) i = Some link /\
        href link = path n /\
        text link = title n /\
        (active link = true <-> is_substring (path n) (pathname (url (page st)))).
Proof.
  destruct (first_with_path_exists st Hsome) as [c Hc].
  apply find_category_Some in Hc.
  unfold outcome; rewrite render_run, Hc; simpl.
  eexists; split; [reflexivity|]; simpl.
  intros i n Hnode; exists (toc_link (page st) n).
  split; [now apply map_nth_error|].
  repeat split; apply includes_true_iff.
Qed.

Lemma rendered_active_iff_substring_witness :
  exists out,
    outcome (render "X") (at_path [node_A; node_B; node_X] "/a/x") = Js.Normal out /\
    forall i n, nth_error [node_A; node_B; node_X] i = Some n ->
      exists link,
        nth_error (toc_list out) i = Some link /\
        href link = path n /\
        text link = title n /\
        (active link = true <-> is_substring (path n) "/a/x").
Proof.
  apply (rendered_active_iff_substring (at_path [node_A; node_B; node_X] "/a/x") "X").
  exists node_X; split; [right; right; now left | reflexivity].
Defined.

(** X10: when some top-level node carries the current path, the component
    renders, and a top-level node whose path is the empty string is marked
    active in the rendered top-level list. *)
Theorem rendered_empty_path_active (st : Stores) (title_prop : string)
  (i : nat) (n : CategoryNode)
  (Hsome : exists m, In m (categories st) /\ path m = pathname (url (page st)))
  (Hnode : nth_error (categories st) i = Some n)
  (Hempty : path n = "") :
  exists out link,
    outcome (render title_prop) st = Js.Normal out /\
    nth_error (toc_list out) i = Some link /\
    href link = "" /\
    text link = title n /\
    active link = true.
Proof.
  destruct (first_with_path_exists st Hsome) as [c Hc].
  apply find_category_Some in Hc.
  unfold outcome; rewrite render_run, Hc; simpl.
  eexists; exists (toc_link (page st) n); split; [reflexivity|]; simpl.
  split; [now apply map_nth_error|].
  rewrite Hempty; repeat split; apply includes_empty.
Qed.

Lemma rendered_empty_path_active_witness :
  exists out link,
    outcome (render "A") (at_path [node_A; node_Home] "/a") = Js.Normal out /\
    nth_error (toc_list out) 1 = Some link /\
    href link = "" /\
    text link = "Home" /\
    active link = true.
Proof.
  apply (rendered_empty_path_active (at_path [node_A; node_Home] "/a") "A" 1 node_Home).
  - exists node_A; split; [now left | reflexivity].
  - reflexivity.
  - reflexivity.
Defined.

End Further.
